(** * The bisection solver of [bisection_method.py]

    A shallow embedding of [f], [bisection_method], [plot_function] and
    [plot_convergence] and the properties of the solver's loop.

    Numbers.  The script computes with Python numbers (the entry point passes
    floats, [(a + b) / 2] is a true division).  They are embedded as exact
    rationals [Q]: every finite binary64 value is a rational, and [+], [-],
    [*], [/], [abs] and the comparisons are the exact operations that the
    float operations round.  Rounding, overflow and NaN are outside the
    model; in the concrete runs below the midpoints are exact in binary64 and
    every comparison the code makes has a margin far above its rounding.

    Effects.  [print] is modelled as a list of events (what is printed, not
    how it is formatted); an exception as the [Raise] outcome; a call into
    [matplotlib.pyplot] as an event that carries the data it draws. *)

From Stdlib Require Import QArith Qabs Qpower ZArith List Bool Lia Lqa.
Import ListNotations.

Open Scope Q_scope.

(** ** Python operators on numbers *)

(** [x < y] *)
Definition Qlt_bool (x y : Q) : bool := negb (Qle_bool y x).

(** [x >= y] *)
Definition Qge_bool (x y : Q) : bool := Qle_bool y x.

(** ** Data *)

(** The dict [iter_data] built at lines 53-62; field [it_k] is key ['k']. *)
Record iter_data : Type := mk_iter_data {
  it_iteration : Z;
  it_a : Q;
  it_b : Q;
  it_c : Q;
  it_fa : Q;
  it_fb : Q;
  it_fc : Q;
  it_error : Q
}.

(** What the function prints, one event per [print] group. *)
Inductive event : Type :=
| PrintBracketError                      (* line 28 *)
| PrintHeader                            (* lines 34-35 *)
| PrintRow (d : iter_data)               (* line 66 *)
| PrintRootFound (c fc : Q) (n : Z)      (* lines 70-72 *)
| PrintMaxIterations (c : Q).            (* line 83 *)

(** The exceptions the body can raise. *)
Inductive exn : Type :=
| ZeroDivisionError      (* [... / c] with [c] zero, line 48 *)
| IndexError             (* [iterations[-1]] on an empty list, line 48 *)
| UnboundLocalError.     (* [c] read at line 83 before any assignment *)

(** The returned tuple: [None, None] or [c, iterations]. *)
Inductive value : Type :=
| NoneNone
| RootIterations (c : Q) (iterations : list iter_data).

Inductive outcome : Type :=
| Return (v : value)
| Raise (e : exn)
| OutOfFuel.             (* of the model only: the loop bound was too small *)

(** The local variables that live across loop passes.  [l_c] is [None] while
    [c] is unbound. *)
Record locals : Type := mk_locals {
  l_a : Q;
  l_b : Q;
  l_iteration : Z;
  l_iterations : list iter_data;
  l_c : option Q
}.

(** How one pass of the loop body ends. *)
Inductive step : Type :=
| Next (s : locals)      (* falls through to line 81 *)
| Done (v : value)       (* [return] at line 73 *)
| Fail (e : exn).

(** [iterations[-1]] *)
Definition last_item (iterations : list iter_data) : option iter_data :=
  match rev iterations with
  | [] => None
  | d :: _ => Some d
  end.

(** ** The solver, for a target function [f] *)

Section Solver.

Variable f : Q -> Q.

Section Loop.

Variables (tolerance : Q) (max_iterations : Z).

(** Lines 46-50. *)
Definition relative_error (iteration : Z) (iterations : list iter_data)
    (c : Q) : exn + Q :=
  if (0 <? iteration)%Z then
    match last_item iterations with
    | None => inl IndexError
    | Some prev =>
        if Qeq_bool c 0 then inl ZeroDivisionError
        else inr (Qabs ((c - it_c prev) / c) * 100)
    end
  else inr 100.

(** Line 69. *)
Definition converged (fc error : Q) : bool :=
  Qlt_bool (Qabs fc) tolerance || Qlt_bool error tolerance.

(** Lines 75-79. *)
Definition update_interval (a b c fa fc : Q) : Q * Q :=
  if Qlt_bool (fa * fc) 0 then (a, c) else (c, b).

(** Lines 38-81: one pass of the [while] body. *)
Definition loop_body (s : locals) : list event * step :=
  let a := l_a s in
  let b := l_b s in
  let iteration := l_iteration s in
  let iterations := l_iterations s in
  let c := (a + b) / 2 in
  let fa := f a in
  let fb := f b in
  let fc := f c in
  match relative_error iteration iterations c with
  | inl e => ([], Fail e)
  | inr error =>
      let d := mk_iter_data (iteration + 1) a b c fa fb fc error in
      let iterations := iterations ++ [d] in
      if converged fc error then
        ([PrintRow d; PrintRootFound c fc (iteration + 1)],
         Done (RootIterations c iterations))
      else
        let (a, b) := update_interval a b c fa fc in
        ([PrintRow d], Next (mk_locals a b (iteration + 1) iterations (Some c)))
  end.

(** Lines 83-84. *)
Definition after_loop (s : locals) : list event * outcome :=
  match l_c s with
  | None => ([], Raise UnboundLocalError)
  | Some c =>
      ([PrintMaxIterations c], Return (RootIterations c (l_iterations s)))
  end.

(** Lines 37-84: the [while] loop and what follows it. *)
Fixpoint while_loop (fuel : nat) (s : locals) : list event * outcome :=
  if (l_iteration s <? max_iterations)%Z then
    match fuel with
    | O => ([], OutOfFuel)
    | S fuel =>
        match loop_body s with
        | (out, Done v) => (out, Return v)
        | (out, Fail e) => (out, Raise e)
        | (out, Next s) =>
            let (out', r) := while_loop fuel s in (out ++ out', r)
        end
    end
  else after_loop s.

End Loop.

(** Lines 11-84. *)
Definition bisection_method (a b tolerance : Q) (max_iterations : Z)
    : list event * outcome :=
  if Qge_bool (f a * f b) 0 then ([PrintBracketError], Return NoneNone)
  else
    let (out, r) :=
      while_loop tolerance max_iterations (Z.to_nat max_iterations)
        (mk_locals a b 0 [] None) in
    (PrintHeader :: out, r).

End Solver.

(** Lines 5-9: the script's target function. *)
Definition f (x : Q) : Q := x ^ 3 - 4 * x - 9.

(** The defaults of the signature at line 11. *)
Definition default_tolerance : Q := 1 # 10000.
Definition default_max_iterations : Z := 100.

(** Line 143: the call of the entry point, with [a = 2.0] and [b = 3.0]
    (lines 134-135). *)
Definition main_run : list event * outcome :=
  bisection_method f 2 3 default_tolerance default_max_iterations.

(** Other calls of [bisection_method] that the properties below look at. *)
Definition run_zero_midpoint : list event * outcome :=
  bisection_method f (-3) 9 default_tolerance default_max_iterations.
Definition run_tolerance_70 : list event * outcome :=
  bisection_method f 2 18 70 100.
Definition run_tolerance_101 : list event * outcome :=
  bisection_method f 2 18 101 100.
Definition run_tolerance_10 : list event * outcome :=
  bisection_method f 2 3 10 default_max_iterations.
Definition run_one_pass_tolerance_10 : list event * outcome :=
  bisection_method f 2 3 10 1.
Definition run_one_pass : list event * outcome :=
  bisection_method f 2 3 default_tolerance 1.

(** The locals on entry to the loop in [main_run], and after its first
    pass. *)
Definition main_locals : locals := mk_locals 2 3 0 [] None.
Definition main_locals_1 : locals :=
  mk_locals ((2 + 3) / 2) 3 (0 + 1) [mk_iter_data (0 + 1) 2 3 ((2 + 3) / 2)
    (f 2) (f 3) (f ((2 + 3) / 2)) 100] (Some ((2 + 3) / 2)).

(** A function without a real root, for the bracket check. *)
Definition square_plus_one (x : Q) : Q := x ^ 2 + 1.

(** ** Reading a run *)

Definition result (run : list event * outcome) : outcome := snd run.
Definition stdout (run : list event * outcome) : list event := fst run.

(** The rows printed during a run: one per pass that reached line 66. *)
Fixpoint rows (out : list event) : list iter_data :=
  match out with
  | [] => []
  | PrintRow d :: out => d :: rows out
  | _ :: out => rows out
  end.

(** The records appended during a run.  Each [append] at line 63 is followed
    by the [print] of that record at line 66 and nothing else prints a row, so
    the rows of the output are the appended records, in order, also when the
    run ends in an exception. *)
Definition records (run : list event * outcome) : list iter_data :=
  rows (stdout run).

(** The record that follows [d] when the loop goes on after [d]. *)
Definition next_record (f : Q -> Q) (d : iter_data) : iter_data :=
  let (a, b) := update_interval (it_a d) (it_b d) (it_c d) (it_fa d) (it_fc d) in
  let c := (a + b) / 2 in
  mk_iter_data (it_iteration d + 1) a b c (f a) (f b) (f c)
    (Qabs ((c - it_c d) / c) * 100).

(** [chain R l]: every two neighbours of [l] are related by [R]. *)
Fixpoint chain {A : Type} (R : A -> A -> Prop) (l : list A) : Prop :=
  match l with
  | [] => True
  | x :: l' =>
      match l' with
      | [] => True
      | y :: _ => R x y /\ chain R l'
      end
  end.

(** [d2] is the record of the pass after the pass of [d1]: the convergence
    test failed on [d1], the bracket was updated from [d1], and the relative
    error of the new midpoint could be computed. *)
Definition follows (f : Q -> Q) (tolerance : Q) (d1 d2 : iter_data) : Prop :=
  converged tolerance (it_fc d1) (it_error d1) = false
  /\ d2 = next_record f d1
  /\ ~ it_c d2 == 0.

(** The record of the first pass. *)
Definition first_record (f : Q -> Q) (a b : Q) : iter_data :=
  let c := (a + b) / 2 in
  mk_iter_data 1 a b c (f a) (f b) (f c) 100.

(** The locals at line 81 of the pass that appended [d]. *)
Definition after (d : iter_data) (s : locals) : Prop :=
  (l_a s, l_b s)
    = update_interval (it_a d) (it_b d) (it_c d) (it_fa d) (it_fc d)
  /\ l_iteration s = it_iteration d
  /\ last_item (l_iterations s) = Some d
  /\ l_c s = Some (it_c d)
  /\ (0 < l_iteration s)%Z.

(** The three ways a run that entered the loop can end. *)
Inductive ending : Type := Converged | Exhausted | DividedByZero.

(** The run that printed the rows [printed], whose last record is [dl], and
    ended in [e] with the list [iterations]. *)
Definition final (e : ending) (printed iterations : list iter_data)
    (dl : iter_data) : list event * outcome :=
  match e with
  | Converged =>
      (map PrintRow printed
         ++ [PrintRootFound (it_c dl) (it_fc dl) (it_iteration dl)],
       Return (RootIterations (it_c dl) iterations))
  | Exhausted =>
      (map PrintRow printed ++ [PrintMaxIterations (it_c dl)],
       Return (RootIterations (it_c dl) iterations))
  | DividedByZero => (map PrintRow printed, Raise ZeroDivisionError)
  end.

(** What the last record [dl] of a run tells about its ending. *)
Definition ending_of (f : Q -> Q) (tolerance : Q) (e : ending)
    (dl : iter_data) : Prop :=
  match e with
  | Converged => converged tolerance (it_fc dl) (it_error dl) = true
  | Exhausted => converged tolerance (it_fc dl) (it_error dl) = false
  | DividedByZero =>
      converged tolerance (it_fc dl) (it_error dl) = false
      /\ it_c (next_record f dl) == 0
  end.

(** What the body does with the locals of a pass, once the record [d] of the
    pass is known. *)
Definition finish_pass (tolerance : Q) (iterations : list iter_data)
    (d : iter_data) : list event * step :=
  if converged tolerance (it_fc d) (it_error d) then
    ([PrintRow d; PrintRootFound (it_c d) (it_fc d) (it_iteration d)],
     Done (RootIterations (it_c d) (iterations ++ [d])))
  else
    let (a, b) :=
      update_interval (it_a d) (it_b d) (it_c d) (it_fa d) (it_fc d) in
    ([PrintRow d],
     Next (mk_locals a b (it_iteration d) (iterations ++ [d]) (Some (it_c d)))).

(** How a run ended, read off its result and the last thing it printed. *)
Definition how_ended (run : list event * outcome) : option ending :=
  match result run with
  | Return (RootIterations _ _) =>
      match last (stdout run) PrintHeader with
      | PrintRootFound _ _ _ => Some Converged
      | PrintMaxIterations _ => Some Exhausted
      | _ => None
      end
  | Raise ZeroDivisionError => Some DividedByZero
  | _ => None
  end.

(** What every record holds: the midpoint of its bracket and the values of
    [f] at the three points. *)
Definition well_formed (f : Q -> Q) (d : iter_data) : Prop :=
  it_c d = (it_a d + it_b d) / 2
  /\ it_fa d = f (it_a d)
  /\ it_fb d = f (it_b d)
  /\ it_fc d = f (it_c d).

(** ** The plots *)

(** A call into [matplotlib.pyplot], with the data it draws; colours, sizes
    and label texts are left out.  [plt.plot] draws the points
    [(x[k], y[k])]; called with two numbers it draws one point. *)
Inductive plt_call : Type :=
| PltFigure
| PltPlot (x y : list Q)
| PltSemilogy (x : list Z) (y : list Q)
| PltAxhline (y : Q)
| PltAxvline (x : Q)
| PltXlabel
| PltYlabel
| PltTitle
| PltLegend
| PltGrid
| PltTightLayout
| PltShow.

(** [np.linspace(start, stop, num)]: [num] evenly spaced samples,
    [k * step + start] with [step = (stop - start) / (num - 1)], the last of
    them set to [stop]. *)
Definition linspace (start stop : Q) (num : nat) : list Q :=
  match num with
  | O => []
  | S O => [start]
  | S div =>
      let step := (stop - start) / inject_Z (Z.of_nat div) in
      map (fun k => inject_Z (Z.of_nat k) * step + start) (seq 0 div)
        ++ [stop]
  end.

(** [plot_function] (lines 86-107) for the target [f]: the curve over 1000
    samples of [[a - 1, b + 1]], the two axes, and the marker of the root
    when one is given.  [f] is applied to the array of samples element by
    element. *)
Definition plot_function (f : Q -> Q) (a b : Q) (root : option Q)
    : list plt_call :=
  let x := linspace (a - 1) (b + 1) 1000 in
  let y := map f x in
  [PltFigure; PltPlot x y; PltAxhline 0; PltAxvline 0; PltGrid]
    ++ match root with
       | Some root => [PltPlot [root] [f root]]
       | None => []
       end
    ++ [PltXlabel; PltYlabel; PltTitle; PltLegend; PltTightLayout; PltShow].


(** ** Further targets and calls *)


(** The entry point's bracket with a zero tolerance and five passes. *)
Definition run_tolerance_0 : list event * outcome :=
  bisection_method f 2 3 0 5.

(** * Properties *)

(** ** Comparisons *)

Lemma Qlt_bool_iff (x y : Q) : Qlt_bool x y = true <-> x < y.
Proof.
  unfold Qlt_bool. rewrite negb_true_iff, <- not_true_iff_false, Qle_bool_iff.
  split; [apply Qnot_le_lt | apply Qlt_not_le].
Qed.

Lemma Qlt_bool_false_iff (x y : Q) : Qlt_bool x y = false <-> y <= x.
Proof.
  unfold Qlt_bool. rewrite negb_false_iff. apply Qle_bool_iff.
Qed.

Lemma Qge_bool_iff (x y : Q) : Qge_bool x y = true <-> y <= x.
Proof. apply Qle_bool_iff. Qed.

Lemma Qge_bool_false_iff (x y : Q) : Qge_bool x y = false <-> x < y.
Proof.
  unfold Qge_bool. rewrite <- not_true_iff_false, Qle_bool_iff.
  split; [apply Qnot_le_lt | apply Qlt_not_le].
Qed.

Lemma Qeq_bool_false_iff (x y : Q) : Qeq_bool x y = false <-> ~ x == y.
Proof. rewrite <- not_true_iff_false, Qeq_bool_iff. tauto. Qed.

Lemma converged_iff (tolerance fc error : Q) :
  converged tolerance fc error = true <->
  Qabs fc < tolerance \/ error < tolerance.
Proof. unfold converged. now rewrite orb_true_iff, !Qlt_bool_iff. Qed.

Lemma converged_false_iff (tolerance fc error : Q) :
  converged tolerance fc error = false <->
  tolerance <= Qabs fc /\ tolerance <= error.
Proof. unfold converged. now rewrite orb_false_iff, !Qlt_bool_false_iff. Qed.

(** ** Lists *)

Lemma last_item_app (l : list iter_data) (d : iter_data) :
  last_item (l ++ [d]) = Some d.
Proof. unfold last_item. now rewrite rev_app_distr. Qed.

Lemma rows_app (out out' : list event) : rows (out ++ out') = rows out ++ rows out'.
Proof.
  induction out as [|e out IH]; [reflexivity|].
  destruct e; simpl; now rewrite IH.
Qed.

Lemma chain_nth {A : Type} (R : A -> A -> Prop) (l : list A) :
  chain R l ->
  forall i x y, nth_error l i = Some x -> nth_error l (S i) = Some y -> R x y.
Proof.
  induction l as [|x0 l IH]; intros H i x y Hx Hy.
  - destruct i; discriminate.
  - destruct l as [|y0 l]; [destruct i; discriminate|].
    destruct H as [H0 H]. destruct i as [|i].
    + simpl in Hx, Hy. injection Hx as <-. injection Hy as <-. exact H0.
    + exact (IH H i x y Hx Hy).
Qed.

Section Facts.

Variable f : Q -> Q.

(** ** The bracket check *)

Lemma bisection_method_invalid (a b tolerance : Q) (max_iterations : Z) :
  0 <= f a * f b ->
  bisection_method f a b tolerance max_iterations
    = ([PrintBracketError], Return NoneNone).
Proof.
  intros H. apply Qge_bool_iff in H. unfold bisection_method. now rewrite H.
Qed.

(** C1.  When [f(a) * f(b) >= 0] the call prints the bracket error and
    returns [None, None] at once: the header is not printed, no pass of the
    loop runs and no record is appended. *)
Theorem invalid_bracket_returns_at_once (a b tolerance : Q) (max_iterations : Z) :
  0 <= f a * f b ->
  bisection_method f a b tolerance max_iterations
    = ([PrintBracketError], Return NoneNone)
  /\ records (bisection_method f a b tolerance max_iterations) = [].
Proof.
  intros H. rewrite (bisection_method_invalid a b tolerance max_iterations H).
  split; reflexivity.
Qed.

(** ** One pass of the loop *)

Section Pass.

Variables (tolerance : Q) (max_iterations : Z).

Lemma loop_body_first (a b : Q) :
  loop_body f tolerance (mk_locals a b 0 [] None)
    = finish_pass tolerance [] (first_record f a b).
Proof. reflexivity. Qed.

Lemma loop_body_after (d : iter_data) (s : locals) :
  after d s ->
  loop_body f tolerance s
    = if Qeq_bool (it_c (next_record f d)) 0 then ([], Fail ZeroDivisionError)
      else finish_pass tolerance (l_iterations s) (next_record f d).
Proof.
  destruct s as [a b iteration iterations c].
  intros (Hab & Hit & Hlast & _ & Hpos). simpl in *.
  unfold loop_body, relative_error, next_record, finish_pass. simpl.
  rewrite Hlast, <- Hab, <- Hit. apply Z.ltb_lt in Hpos. rewrite Hpos. simpl.
  destruct (Qeq_bool ((a + b) / 2) 0); reflexivity.
Qed.

Lemma finish_pass_next (iterations : list iter_data) (d : iter_data)
    (out : list event) (s : locals) :
  finish_pass tolerance iterations d = (out, Next s) ->
  out = [PrintRow d]
  /\ converged tolerance (it_fc d) (it_error d) = false
  /\ l_iterations s = iterations ++ [d]
  /\ ((0 < it_iteration d)%Z -> after d s).
Proof.
  unfold finish_pass.
  destruct (converged tolerance (it_fc d) (it_error d)); [discriminate|].
  destruct (update_interval _ _ _ _ _) as [a b] eqn:Hab.
  intros H. injection H as <- <-. repeat split; simpl; auto.
  apply last_item_app.
Qed.

Lemma finish_pass_done (iterations : list iter_data) (d : iter_data)
    (out : list event) (v : value) :
  finish_pass tolerance iterations d = (out, Done v) ->
  out = [PrintRow d; PrintRootFound (it_c d) (it_fc d) (it_iteration d)]
  /\ v = RootIterations (it_c d) (iterations ++ [d])
  /\ converged tolerance (it_fc d) (it_error d) = true.
Proof.
  unfold finish_pass.
  destruct (converged tolerance (it_fc d) (it_error d)).
  - intros H. injection H as <- <-. auto.
  - destruct (update_interval _ _ _ _ _); discriminate.
Qed.

Lemma finish_pass_fail (iterations : list iter_data) (d : iter_data)
    (out : list event) (e : exn) :
  finish_pass tolerance iterations d <> (out, Fail e).
Proof.
  unfold finish_pass.
  destruct (converged tolerance (it_fc d) (it_error d)); [discriminate|].
  destruct (update_interval _ _ _ _ _); discriminate.
Qed.

(** ** The loop *)

Lemma last_cons {A : Type} (l : list A) (x d : A) :
  last (x :: l) d = last l x.
Proof.
  revert x d. induction l as [|y l IH]; intros x d; [reflexivity|].
  change (last (x :: y :: l) d) with (last (y :: l) d).
  now rewrite !IH.
Qed.

Lemma rows_map (ds : list iter_data) : rows (map PrintRow ds) = ds.
Proof. induction ds as [|d ds IH]; simpl; congruence. Qed.

Lemma rows_final (e : ending) (ds its : list iter_data) (dl : iter_data) :
  rows (fst (final e ds its dl)) = ds.
Proof.
  destruct e; simpl; rewrite ?rows_app, rows_map; simpl;
    now rewrite ?app_nil_r.
Qed.

(** From the locals left by the pass of [d], the loop appends a chain of
    records that starts after [d] and ends in one of the three ways; it
    never needs more passes than [max_iterations - iteration]. *)
Lemma while_loop_run (fuel : nat) :
  forall (s : locals) (d : iter_data),
    after d s ->
    converged tolerance (it_fc d) (it_error d) = false ->
    (l_iteration s <= max_iterations)%Z ->
    (max_iterations - l_iteration s <= Z.of_nat fuel)%Z ->
    exists (ds : list iter_data) (e : ending),
      while_loop f tolerance max_iterations fuel s
        = final e ds (l_iterations s ++ ds) (last ds d)
      /\ chain (follows f tolerance) (d :: ds)
      /\ ending_of f tolerance e (last ds d)
      /\ (Z.of_nat (length ds) <= max_iterations - l_iteration s)%Z
      /\ (e = Exhausted ->
          Z.of_nat (length ds) = max_iterations - l_iteration s)%Z
      /\ (e = Converged -> ds <> []).
Proof.
  assert (Hstop : forall s d,
    after d s ->
    converged tolerance (it_fc d) (it_error d) = false ->
    (l_iteration s <= max_iterations)%Z ->
    (l_iteration s <? max_iterations)%Z = false ->
    exists ds e,
      after_loop s = final e ds (l_iterations s ++ ds) (last ds d)
      /\ chain (follows f tolerance) (d :: ds)
      /\ ending_of f tolerance e (last ds d)
      /\ (Z.of_nat (length ds) <= max_iterations - l_iteration s)%Z
      /\ (e = Exhausted ->
          Z.of_nat (length ds) = max_iterations - l_iteration s)%Z
      /\ (e = Converged -> ds <> [])).
  { intros s d Haft Hnc Hle Hlt. apply Z.ltb_ge in Hlt.
    exists [], Exhausted. destruct Haft as (_ & _ & _ & Hc & _).
    unfold after_loop. rewrite Hc, app_nil_r. simpl.
    repeat split; auto; try lia; discriminate. }
  induction fuel as [|fuel IH]; intros s d Haft Hnc Hle Hfuel; simpl;
    destruct (l_iteration s <? max_iterations)%Z eqn:Hlt;
    try (apply Hstop; assumption).
  - apply Z.ltb_lt in Hlt. simpl in Hfuel. lia.
  - apply Z.ltb_lt in Hlt. rewrite (loop_body_after d s Haft).
    rewrite Nat2Z.inj_succ in Hfuel.
    assert (Hpos : (0 < l_iteration s)%Z) by apply Haft.
    set (d' := next_record f d).
    destruct (Qeq_bool (it_c d') 0) eqn:Hzero.
    + exists [], DividedByZero. apply Qeq_bool_iff in Hzero. simpl.
      repeat split; auto; try lia; discriminate.
    + apply Qeq_bool_false_iff in Hzero.
      assert (Hit : it_iteration d' = (l_iteration s + 1)%Z).
      { destruct Haft as (_ & Hi & _). unfold d', next_record.
        destruct (update_interval _ _ _ _ _). simpl. now rewrite Hi. }
      assert (Hfol : follows f tolerance d d') by (repeat split; auto).
      destruct (finish_pass tolerance (l_iterations s) d') as [out st] eqn:Hfp.
      destruct st as [s' | v | e].
      * apply finish_pass_next in Hfp.
        destruct Hfp as (-> & Hnc' & Hits & Haft').
        assert (Haft'' : after d' s') by (apply Haft'; lia).
        assert (Hi' : l_iteration s' = (l_iteration s + 1)%Z).
        { destruct Haft'' as (_ & Hi' & _). congruence. }
        destruct (IH s' d' Haft'' Hnc') as (ds & e & Hrun & Hch & Hend & Hlen & Hex & Hcv);
          try lia.
        exists (d' :: ds), e. rewrite Hrun, last_cons, Hits, <- app_assoc.
        simpl length. rewrite Nat2Z.inj_succ.
        repeat split; auto; try lia.
        -- destruct e; reflexivity.
        -- intros He. specialize (Hex He). lia.
        -- discriminate.
      * apply finish_pass_done in Hfp. destruct Hfp as (-> & -> & Hcv).
        exists [d'], Converged. simpl.
        repeat split; auto; try lia; discriminate.
      * now apply finish_pass_fail in Hfp.
Qed.

(** ** The convergence check and the bracket update *)


(** C6.  A pass that does not return updates the bracket by the sign of
    [f(a) * f(c)]: strictly negative moves [b] to [c], anything else moves
    [a] to [c]; a product that is exactly zero takes the second branch. *)
Theorem bracket_update (s s' : locals) (out : list event) :
  loop_body f tolerance s = (out, Next s') ->
  let a := l_a s in
  let b := l_b s in
  let c := (a + b) / 2 in
  (f a * f c < 0 -> l_a s' = a /\ l_b s' = c)
  /\ (~ f a * f c < 0 -> l_a s' = c /\ l_b s' = b)
  /\ (f a * f c == 0 -> l_a s' = c /\ l_b s' = b).
Proof.
  intros H a b c. unfold loop_body in H. fold a b c in H.
  destruct (relative_error _ _ _); [discriminate|].
  destruct (converged _ _ _); [discriminate|].
  unfold update_interval in H.
  destruct (Qlt_bool (f a * f c) 0) eqn:Hlt; injection H as _ <-; simpl.
  - apply Qlt_bool_iff in Hlt. split; [auto | split].
    + intros H0. contradiction.
    + intros H0. rewrite H0 in Hlt. discriminate.
  - apply Qlt_bool_false_iff in Hlt. split; [| auto].
    intros H0. exfalso. apply (Qlt_not_le _ _ H0 Hlt).
Qed.

End Pass.

(** ** Whole runs *)

(** Without a positive [max_iterations] the loop is skipped and line 83 reads
    [c] before it was ever assigned. *)
Lemma bisection_method_no_pass (a b tolerance : Q) (max_iterations : Z) :
  f a * f b < 0 ->
  (max_iterations <= 0)%Z ->
  bisection_method f a b tolerance max_iterations
    = ([PrintHeader], Raise UnboundLocalError).
Proof.
  intros Hab Hmax. apply Qge_bool_false_iff in Hab.
  unfold bisection_method. rewrite Hab.
  apply Z.ltb_ge in Hmax.
  destruct (Z.to_nat max_iterations); simpl; now rewrite Hmax.
Qed.

(** A run on a valid bracket with a positive [max_iterations]: the records
    are the first record followed by a chain, at most [max_iterations] of
    them, and the run ends in one of the three ways. *)
Lemma bisection_method_run (a b tolerance : Q) (max_iterations : Z) :
  f a * f b < 0 ->
  (0 < max_iterations)%Z ->
  exists (ds' : list iter_data) (e : ending),
    let d1 := first_record f a b in
    let ds := d1 :: ds' in
    let dl := last ds' d1 in
    bisection_method f a b tolerance max_iterations
      = (PrintHeader :: fst (final e ds ds dl), snd (final e ds ds dl))
    /\ chain (follows f tolerance) ds
    /\ ending_of f tolerance e dl
    /\ (Z.of_nat (length ds) <= max_iterations)%Z
    /\ (e = Exhausted -> Z.of_nat (length ds) = max_iterations).
Proof.
  intros Hab Hmax. apply Qge_bool_false_iff in Hab.
  unfold bisection_method. rewrite Hab.
  destruct (Z.to_nat max_iterations) as [|fuel] eqn:Hfuel; [lia|].
  cbn [while_loop l_iteration]. apply Z.ltb_lt in Hmax as Hlt. rewrite Hlt.
  rewrite loop_body_first. set (d1 := first_record f a b).
  destruct (finish_pass tolerance [] d1) as [out st] eqn:Hfp.
  destruct st as [s | v | e].
  - apply finish_pass_next in Hfp. destruct Hfp as (-> & Hnc & Hits & Haft).
    assert (Haft' : after d1 s) by (apply Haft; simpl; lia).
    assert (Hi : l_iteration s = 1%Z) by apply Haft'.
    destruct (while_loop_run tolerance max_iterations fuel s d1 Haft' Hnc)
      as (ds & e & Hrun & Hch & Hend & Hlen & Hex & _); try lia.
    exists ds, e. rewrite Hrun, Hits. simpl length. rewrite Nat2Z.inj_succ.
    repeat split; auto; try lia.
    + destruct e; reflexivity.
    + intros He. specialize (Hex He). lia.
  - apply finish_pass_done in Hfp. destruct Hfp as (-> & -> & Hcv).
    exists [], Converged. simpl. repeat split; auto; try lia; discriminate.
  - now apply finish_pass_fail in Hfp.
Qed.

Lemma how_ended_final (e : ending) (ds its : list iter_data) (dl : iter_data) :
  how_ended (PrintHeader :: fst (final e ds its dl), snd (final e ds its dl))
    = Some e.
Proof.
  unfold how_ended, result, stdout.
  destruct e; cbn [final fst snd]; try reflexivity;
    now rewrite app_comm_cons, last_last.
Qed.

Lemma records_final (e : ending) (ds its : list iter_data) (dl : iter_data) :
  records (PrintHeader :: fst (final e ds its dl), snd (final e ds its dl))
    = ds.
Proof. unfold records, stdout. cbn [fst rows]. apply rows_final. Qed.

(** The records of any run: nothing, or the first record followed by a
    chain. *)
Lemma records_chain (a b tolerance : Q) (max_iterations : Z) :
  let ds := records (bisection_method f a b tolerance max_iterations) in
  chain (follows f tolerance) ds
  /\ (forall d, nth_error ds 0 = Some d ->
       d = first_record f a b /\ f a * f b < 0).
Proof.
  destruct (Qlt_le_dec (f a * f b) 0) as [Hab | Hab].
  - destruct (Z_lt_le_dec 0 max_iterations) as [Hmax | Hmax].
    + destruct (bisection_method_run a b tolerance max_iterations Hab Hmax)
        as (ds' & e & Hrun & Hch & _).
      cbv zeta in Hrun, Hch. rewrite Hrun, records_final. cbv zeta.
      split; [exact Hch|]. intros d Hd. injection Hd as <-. auto.
    + rewrite (bisection_method_no_pass a b tolerance max_iterations Hab Hmax).
      split; [exact I | discriminate].
  - rewrite (bisection_method_invalid a b tolerance max_iterations Hab).
    split; [exact I | discriminate].
Qed.

Lemma chain_Forall {A : Type} (R : A -> A -> Prop) (P : A -> Prop)
    (l : list A) :
  (forall x, nth_error l 0 = Some x -> P x) ->
  (forall x y, R x y -> P x -> P y) ->
  chain R l -> Forall P l.
Proof.
  intros Hhd Hstep. induction l as [|x l IH]; intros Hch; constructor.
  - now apply Hhd.
  - apply IH.
    + intros y Hy. destruct l as [|y' l]; [discriminate|].
      injection Hy as <-. destruct Hch as [HR _].
      apply (Hstep x y' HR). now apply Hhd.
    + destruct l; [exact I | apply Hch].
Qed.

Lemma next_record_well_formed (d : iter_data) : well_formed f (next_record f d).
Proof.
  unfold next_record. destruct (update_interval _ _ _ _ _).
  repeat split.
Qed.

Lemma records_well_formed (a b tolerance : Q) (max_iterations : Z) :
  Forall (well_formed f)
    (records (bisection_method f a b tolerance max_iterations)).
Proof.
  destruct (records_chain a b tolerance max_iterations) as [Hch Hhd].
  apply (chain_Forall (follows f tolerance)); [| | exact Hch].
  - intros d Hd. destruct (Hhd d Hd) as [-> _]. repeat split.
  - intros d1 d2 (_ & -> & _) _. apply next_record_well_formed.
Qed.

(** ** The relative error *)

Lemma Qabs_Qdiv (x y : Q) : Qabs (x / y) == Qabs x / Qabs y.
Proof. unfold Qdiv. now rewrite Qabs_Qmult, Qabs_Qinv. Qed.

(** C4, as amended.  The first record holds the sentinel 100; every later
    record holds [|c - c_prev| / |c| * 100] for the midpoint [c_prev] of the
    record before it; and with [tolerance <= 100] a call that returns
    converged from its first pass has [|f(c)| < tolerance] there. *)
Theorem relative_error_recorded (a b tolerance : Q) (max_iterations : Z) :
  let run := bisection_method f a b tolerance max_iterations in
  (forall d, nth_error (records run) 0 = Some d -> it_error d = 100)
  /\ (forall i d1 d2,
        nth_error (records run) i = Some d1 ->
        nth_error (records run) (S i) = Some d2 ->
        it_error d2 == Qabs (it_c d2 - it_c d1) / Qabs (it_c d2) * 100)
  /\ (tolerance <= 100 ->
      forall d,
        records run = [d] ->
        how_ended run = Some Converged ->
        Qabs (f (it_c d)) < tolerance).
Proof.
  intros run.
  destruct (records_chain a b tolerance max_iterations) as [Hch Hhd].
  fold run in Hch, Hhd. split; [| split].
  - intros d Hd. now destruct (Hhd d Hd) as [-> _].
  - intros i d1 d2 H1 H2.
    destruct (chain_nth _ _ Hch i d1 d2 H1 H2) as (_ & -> & _).
    unfold next_record. destruct (update_interval _ _ _ _ _) as [a' b'].
    cbn [it_error it_c]. now rewrite Qabs_Qdiv.
  - intros Htol d Hd Hend.
    assert (Hd0 : nth_error (records run) 0 = Some d) by now rewrite Hd.
    destruct (Hhd d Hd0) as [-> Hab].
    destruct (Z_lt_le_dec 0 max_iterations) as [Hmax | Hmax].
    + destruct (bisection_method_run a b tolerance max_iterations Hab Hmax)
        as (ds' & e & Hrun & _ & He & _).
      cbv zeta in Hrun, He. fold run in Hrun.
      rewrite Hrun, records_final in Hd. rewrite Hrun, how_ended_final in Hend.
      injection Hd as ->. injection Hend as ->.
      cbn [last ending_of] in He. apply converged_iff in He.
      destruct He as [He | He]; [exact He|].
      exfalso. apply (Qlt_not_le _ _ He Htol).
    + unfold run in Hend.
      rewrite (bisection_method_no_pass a b tolerance max_iterations Hab Hmax)
        in Hend. discriminate.
Qed.

(** ** The bracket *)


Lemma opposite_signs_kept (fa fb fc : Q) :
  fa * fb < 0 -> ~ fa * fc < 0 -> ~ fc == 0 -> fc * fb < 0.
Proof.
  intros Hab Hac Hc.
  destruct (Qlt_le_dec fc 0) as [Hneg | Hpos].
  - destruct (Qlt_le_dec 0 fa) as [Ha | Ha]; [exfalso; apply Hac; nra|].
    destruct (Qlt_le_dec fb 0) as [Hb | Hb]; nra.
  - assert (0 < fc) by (destruct (Qle_lt_or_eq _ _ Hpos) as [H | H];
      [exact H | exfalso; apply Hc; symmetry; exact H]).
    destruct (Qlt_le_dec fa 0) as [Ha | Ha]; [exfalso; apply Hac; nra|].
    destruct (Qlt_le_dec 0 fb) as [Hb | Hb]; nra.
Qed.

(** C10.  With a positive tolerance, every record that is appended stores
    function values of strictly opposite signs at its two endpoints: the
    bracket check gives this for the first record, and a pass that goes on
    has [|f(c)| >= tolerance > 0], so the half it keeps still has it. *)
Theorem bracket_invariant (a b tolerance : Q) (max_iterations : Z) :
  0 < tolerance ->
  forall d,
    In d (records (bisection_method f a b tolerance max_iterations)) ->
    it_fa d * it_fb d < 0.
Proof.
  intros Htol.
  destruct (records_chain a b tolerance max_iterations) as [Hch Hhd].
  assert (H : Forall (fun d => well_formed f d /\ it_fa d * it_fb d < 0)
                (records (bisection_method f a b tolerance max_iterations))).
  { apply (chain_Forall (follows f tolerance)); [| | exact Hch].
    - intros d Hd. destruct (Hhd d Hd) as [-> Hab]. repeat split. exact Hab.
    - intros d1 d2 (Hnc & -> & _) ((_ & Hfa & Hfb & Hfc) & Hab).
      split; [apply next_record_well_formed|].
      apply converged_false_iff in Hnc. destruct Hnc as [Hnc _].
      unfold next_record, update_interval.
      destruct (Qlt_bool (it_fa d1 * it_fc d1) 0) eqn:Hlt; cbn [it_fa it_fb].
      + apply Qlt_bool_iff in Hlt. now rewrite <- Hfa, <- Hfc.
      + apply Qlt_bool_false_iff in Hlt. rewrite <- Hfb, <- Hfc.
        apply (opposite_signs_kept (it_fa d1)); [exact Hab | |].
        * now apply Qle_not_lt.
        * intros H0. rewrite H0 in Hnc. simpl in Hnc.
          apply (Qlt_not_le _ _ Htol Hnc). }
  rewrite Forall_forall in H. intros d Hd. now apply H.
Qed.

(** ** How a run ends *)

Lemma last_item_last (l : list iter_data) (d : iter_data) :
  l <> [] -> last_item l = Some (last l d).
Proof.
  intros H. rewrite (app_removelast_last d H) at 1. apply last_item_app.
Qed.

Lemma last_in {A : Type} (l : list A) (x : A) : In (last l x) (x :: l).
Proof.
  revert x. induction l as [|y l IH]; intros x; [now left|].
  right. rewrite last_cons. apply IH.
Qed.

Lemma chain_not_converged (tolerance : Q) (ds : list iter_data) :
  forall d,
    chain (follows f tolerance) (d :: ds) ->
    converged tolerance (it_fc (last ds d)) (it_error (last ds d)) = false ->
    Forall (fun d => converged tolerance (it_fc d) (it_error d) = false)
      (d :: ds).
Proof.
  induction ds as [|y ds IH]; intros d Hch Hlast.
  - constructor; [exact Hlast | constructor].
  - destruct Hch as [(Hd & _) Hch]. constructor; [exact Hd|].
    apply IH; [exact Hch|]. now rewrite <- (last_cons ds y d).
Qed.

Lemma nth_error_last {A : Type} (l : list A) (x : A) :
  nth_error (x :: l) (length l) = Some (last l x).
Proof.
  revert x. induction l as [|y l IH]; intros x; [reflexivity|].
  cbn [length nth_error]. now rewrite IH, last_cons.
Qed.


(** The outcomes of a call: the model never runs out of fuel, and
    [iterations[-1]] never fails. *)
Lemma bisection_method_outcomes (a b tolerance : Q) (max_iterations : Z) :
  let run := bisection_method f a b tolerance max_iterations in
  result run = Return NoneNone
  \/ result run = Raise UnboundLocalError
  \/ result run = Raise ZeroDivisionError
  \/ exists c, result run = Return (RootIterations c (records run)).
Proof.
  intros run. unfold run.
  destruct (Qlt_le_dec (f a * f b) 0) as [Hab | Hab];
    [| rewrite (bisection_method_invalid a b tolerance max_iterations Hab);
       now left].
  destruct (Z_lt_le_dec 0 max_iterations) as [Hmax | Hmax];
    [| rewrite (bisection_method_no_pass a b tolerance max_iterations Hab Hmax);
       right; now left].
  destruct (bisection_method_run a b tolerance max_iterations Hab Hmax)
    as (ds' & e & Hrun & _).
  cbv zeta in Hrun. rewrite Hrun, records_final. unfold result.
  right. right. destruct e; cbn [final snd]; [right | right | left]; eauto.
Qed.


(** C3, as amended.  On a valid bracket with a positive [max_iterations] at
    most [max_iterations] records are appended and the run ends in one of
    three ways: it returns the last midpoint [c] from a pass on which
    [|f(c)| < tolerance] or [error < tolerance]; or it returns after exactly
    [max_iterations] passes; or a pass after the first divided by a zero
    midpoint. *)
Theorem returns_within_budget (a b tolerance : Q) (max_iterations : Z) :
  f a * f b < 0 ->
  (0 < max_iterations)%Z ->
  let run := bisection_method f a b tolerance max_iterations in
  (Z.of_nat (length (records run)) <= max_iterations)%Z
  /\ exists e,
       how_ended run = Some e
       /\ match e with
          | Converged =>
              exists c its dl,
                result run = Return (RootIterations c its)
                /\ its = records run
                /\ last_item its = Some dl
                /\ c = it_c dl
                /\ (Qabs (f c) < tolerance \/ it_error dl < tolerance)
          | Exhausted =>
              exists c its dl,
                result run = Return (RootIterations c its)
                /\ its = records run
                /\ last_item its = Some dl
                /\ c = it_c dl
                /\ Z.of_nat (length its) = max_iterations
          | DividedByZero => result run = Raise ZeroDivisionError
          end.
Proof.
  intros Hab Hmax run.
  pose proof (records_well_formed a b tolerance max_iterations) as Hwf.
  fold run in Hwf. rewrite Forall_forall in Hwf.
  destruct (bisection_method_run a b tolerance max_iterations Hab Hmax)
    as (ds' & e & Hrun & _ & He & Hlen & Hex).
  cbv zeta in Hrun, He, Hlen, Hex. fold run in Hrun.
  set (d1 := first_record f a b) in *. set (dl := last ds' d1) in *.
  assert (Hrec : records run = d1 :: ds') by (rewrite Hrun; apply records_final).
  assert (Hlast : last_item (d1 :: ds') = Some dl).
  { rewrite (last_item_last _ d1) by discriminate. now rewrite last_cons. }
  split; [now rewrite Hrec|].
  exists e. split; [rewrite Hrun; apply how_ended_final|].
  rewrite Hrec, Hrun. unfold result.
  destruct e; cbn [final snd].
  - exists (it_c dl), (d1 :: ds'), dl. repeat split; auto.
    cbn [ending_of] in He. apply converged_iff in He.
    destruct (Hwf dl) as (_ & _ & _ & Hfc);
      [rewrite Hrec; apply last_in | now rewrite <- Hfc].
  - exists (it_c dl), (d1 :: ds'), dl. repeat split; auto.
  - reflexivity.
Qed.

(** C8, as amended.  A run that ends with the budget exhausted printed the
    maximum-iterations notice and returned the last midpoint with the list of
    all records, in the pair [c, iterations] that a converged run returns as
    well; there are exactly [max_iterations] records, none of which meets the
    convergence test; with [max_iterations = 1] the list is the first
    record alone. *)
Theorem budget_exhausted (a b tolerance : Q) (max_iterations : Z) :
  let run := bisection_method f a b tolerance max_iterations in
  how_ended run = Some Exhausted ->
  exists c its dl,
    run = (PrintHeader :: map PrintRow its ++ [PrintMaxIterations c],
           Return (RootIterations c its))
    /\ last_item its = Some dl
    /\ c = it_c dl
    /\ Z.of_nat (length its) = max_iterations
    /\ (forall d,
          In d its -> converged tolerance (it_fc d) (it_error d) = false)
    /\ (max_iterations = 1%Z -> its = [first_record f a b]).
Proof.
  intros run Hend.
  destruct (Qlt_le_dec (f a * f b) 0) as [Hab | Hab];
    [| unfold run in Hend;
       rewrite (bisection_method_invalid a b tolerance max_iterations Hab)
         in Hend; discriminate].
  destruct (Z_lt_le_dec 0 max_iterations) as [Hmax | Hmax];
    [| unfold run in Hend;
       rewrite (bisection_method_no_pass a b tolerance max_iterations Hab Hmax)
         in Hend; discriminate].
  destruct (bisection_method_run a b tolerance max_iterations Hab Hmax)
    as (ds' & e & Hrun & Hch & He & Hlen & Hex).
  cbv zeta in Hrun, Hch, He, Hlen, Hex. fold run in Hrun.
  rewrite Hrun, how_ended_final in Hend. injection Hend as ->.
  set (d1 := first_record f a b) in *. set (dl := last ds' d1) in *.
  exists (it_c dl), (d1 :: ds'), dl. specialize (Hex eq_refl).
  cbn [ending_of] in He. repeat split; auto.
  - rewrite (last_item_last _ d1) by discriminate. now rewrite last_cons.
  - apply Forall_forall. now apply chain_not_converged.
  - intros H1. destruct ds' as [|d2 ds']; [reflexivity|].
    cbn [length] in Hex. lia.
Qed.

End Facts.

(** * The script's function and concrete runs *)

(** C9, as amended.  The entry point's call converges, in 16 passes, to
    177375/65536 = 2.70652771..., which is 2.706528 to six decimals, and
    [|f(root)| < 0.0001] there. *)
Theorem main_run_converges :
  how_ended main_run = Some Converged
  /\ exists c its,
       result main_run = Return (RootIterations c its)
       /\ length its = 16%nat
       /\ (length its < 20)%nat
       /\ c == 177375 # 65536
       /\ Qabs (c - 2.706528) < 0.0000005
       /\ Qabs (f c) < default_tolerance.
Proof.
  split; [vm_compute; reflexivity|].
  eexists. eexists. split; [vm_compute; reflexivity|].
  split; [reflexivity|]. split; [cbn [length]; lia|].
  repeat split; vm_compute; reflexivity.
Qed.

(** The root of the claim, 2.706421, is not what the call returns: the
    returned root is more than 0.0001 away from it, and [f] at 2.706421 is
    itself not within the tolerance. *)
Lemma main_run_root_is_not_2_706421 :
  exists c its,
    result main_run = Return (RootIterations c its)
    /\ 0.0001 < Qabs (c - 2.706421)
    /\ ~ Qabs (f 2.706421) < default_tolerance.
Proof.
  eexists. eexists. split; [vm_compute; reflexivity|].
  split; [vm_compute; reflexivity|].
  intros H. vm_compute in H. discriminate.
Qed.

(** C5.  [bisection_method(-3, 9)]: the bracket is valid, the first pass
    keeps [[-3, 3]], and the second pass divides by its midpoint [0]: the
    call ends in [ZeroDivisionError] after one record, with no result. *)
Theorem zero_midpoint_raises :
  f (-3) * f 9 < 0
  /\ result run_zero_midpoint = Raise ZeroDivisionError
  /\ how_ended run_zero_midpoint = Some DividedByZero
  /\ records run_zero_midpoint = [first_record f (-3) 9]
  /\ it_c (next_record f (first_record f (-3) 9)) == 0.
Proof. repeat split; vm_compute; reflexivity. Qed.

(** Against C3 as stated: [bisection_method(2, 18, tolerance=70)] returns
    converged from its second pass of 100, on the error criterion alone:
    [|f(6)| = 183] is not below the tolerance. *)
Lemma converged_on_error_alone :
  f 2 * f 18 < 0
  /\ how_ended run_tolerance_70 = Some Converged
  /\ exists c its dl,
       result run_tolerance_70 = Return (RootIterations c its)
       /\ length its = 2%nat
       /\ last_item its = Some dl
       /\ it_error dl < 70
       /\ ~ Qabs (f c) < 70.
Proof.
  split; [vm_compute; reflexivity|]. split; [vm_compute; reflexivity|].
  eexists. eexists. eexists. split; [vm_compute; reflexivity|].
  split; [reflexivity|]. split; [vm_compute; reflexivity|].
  split; [vm_compute; reflexivity|].
  intros H. vm_compute in H. discriminate.
Qed.

(** Against C4 as stated: with a tolerance above 100 the first pass does
    return on the error criterion alone.  [bisection_method(2, 18,
    tolerance=101)] returns from pass 1 with [|f(10)| = 951]. *)
Lemma first_pass_returns_on_sentinel :
  how_ended run_tolerance_101 = Some Converged
  /\ exists d,
       records run_tolerance_101 = [d]
       /\ it_error d = 100
       /\ it_error d < 101
       /\ ~ Qabs (f (it_c d)) < 101.
Proof.
  split; [vm_compute; reflexivity|].
  eexists. split; [vm_compute; reflexivity|].
  split; [reflexivity|]. split; [vm_compute; reflexivity|].
  intros H. vm_compute in H. discriminate.
Qed.

(** Against C8 as stated: the returned pair carries no flag.  With one pass
    allowed, [bisection_method(2, 3, tolerance=10)] converges and
    [bisection_method(2, 3)] exhausts the budget, and both return the same
    pair. *)
Lemma exhausted_returns_like_converged :
  how_ended run_one_pass_tolerance_10 = Some Converged
  /\ how_ended run_one_pass = Some Exhausted
  /\ result run_one_pass_tolerance_10 = result run_one_pass.
Proof. repeat split; vm_compute; reflexivity. Qed.

(** ** Instances *)

(** The spec's scenario for the bracket check: [x^2 + 1] on [[0, 1]]. *)
Lemma invalid_bracket_instance :
  0 <= square_plus_one 0 * square_plus_one 1
  /\ bisection_method square_plus_one 0 1 default_tolerance
       default_max_iterations
     = ([PrintBracketError], Return NoneNone)
  /\ records (bisection_method square_plus_one 0 1 default_tolerance
                default_max_iterations)
     = [].
Proof.
  assert (H : 0 <= square_plus_one 0 * square_plus_one 1)
    by (vm_compute; discriminate).
  split; [exact H|].
  exact (invalid_bracket_returns_at_once square_plus_one 0 1
           default_tolerance default_max_iterations H).
Defined.

(** The first pass of the entry point's call moves [a] to [2.5]. *)
Lemma bracket_update_instance :
  loop_body f default_tolerance main_locals
    = ([PrintRow (first_record f 2 3)], Next main_locals_1)
  /\ ~ f 2 * f ((2 + 3) / 2) < 0
  /\ l_a main_locals_1 = (2 + 3) / 2
  /\ l_b main_locals_1 = 3.
Proof.
  assert (H : loop_body f default_tolerance main_locals
              = ([PrintRow (first_record f 2 3)], Next main_locals_1))
    by reflexivity.
  assert (Hs : ~ f 2 * f ((2 + 3) / 2) < 0)
    by (intros H0; vm_compute in H0; discriminate).
  split; [exact H|]. split; [exact Hs|].
  exact (proj1 (proj2 (bracket_update f default_tolerance main_locals
                         main_locals_1 _ H)) Hs).
Defined.

(** The entry point's call keeps a sign change in every record. *)
Lemma bracket_invariant_instance :
  0 < default_tolerance
  /\ forall d, In d (records main_run) -> it_fa d * it_fb d < 0.
Proof.
  assert (H : 0 < default_tolerance) by reflexivity.
  split; [exact H|].
  exact (bracket_invariant f 2 3 default_tolerance default_max_iterations H).
Defined.

(** The entry point's call is within its budget. *)
Lemma returns_within_budget_instance :
  f 2 * f 3 < 0
  /\ (0 < default_max_iterations)%Z
  /\ (Z.of_nat (length (records main_run)) <= default_max_iterations)%Z.
Proof.
  assert (Hab : f 2 * f 3 < 0) by reflexivity.
  assert (Hmax : (0 < default_max_iterations)%Z) by reflexivity.
  split; [exact Hab|]. split; [exact Hmax|].
  exact (proj1 (returns_within_budget f 2 3 default_tolerance
                  default_max_iterations Hab Hmax)).
Defined.

(** With one pass allowed the entry point's call exhausts its budget and
    returns the first record alone. *)
Lemma budget_exhausted_instance :
  how_ended run_one_pass = Some Exhausted
  /\ exists c its dl,
       run_one_pass
         = (PrintHeader :: map PrintRow its ++ [PrintMaxIterations c],
            Return (RootIterations c its))
       /\ last_item its = Some dl
       /\ c = it_c dl
       /\ Z.of_nat (length its) = 1%Z
       /\ (forall d,
             In d its ->
             converged default_tolerance (it_fc d) (it_error d) = false)
       /\ (1%Z = 1%Z -> its = [first_record f 2 3]).
Proof.
  assert (H : how_ended run_one_pass = Some Exhausted) by reflexivity.
  split; [exact H|].
  exact (budget_exhausted f 2 3 default_tolerance 1 H).
Defined.

(** A call that converges in its first pass, with a tolerance below 100. *)
Lemma relative_error_recorded_instance :
  10 <= 100
  /\ records run_tolerance_10 = [first_record f 2 3]
  /\ how_ended run_tolerance_10 = Some Converged
  /\ Qabs (f (it_c (first_record f 2 3))) < 10.
Proof.
  assert (Htol : 10 <= 100) by (vm_compute; discriminate).
  assert (Hd : records run_tolerance_10 = [first_record f 2 3])
    by reflexivity.
  assert (Hend : how_ended run_tolerance_10 = Some Converged) by reflexivity.
  split; [exact Htol|]. split; [exact Hd|]. split; [exact Hend|].
  exact (proj2 (proj2 (relative_error_recorded f 2 3 10
                         default_max_iterations))
           Htol (first_record f 2 3) Hd Hend).
Defined.

(** * Further properties of the solver *)

(** ** Lists, powers of two and halves *)

Lemma chain_indexed {A : Type} (R : A -> A -> Prop) (P : nat -> A -> Prop)
    (l : list A) :
  (forall x, nth_error l 0 = Some x -> P O x) ->
  (forall i x y, R x y -> P i x -> P (S i) y) ->
  chain R l ->
  forall i x, nth_error l i = Some x -> P i x.
Proof.
  intros H0 HS Hch. induction i as [|i IH]; intros x Hx; [now apply H0|].
  destruct (nth_error l i) as [y|] eqn:Hy.
  - apply (HS i y x); [exact (chain_nth R l Hch i y x Hy Hx) | now apply IH].
  - exfalso. apply nth_error_None in Hy.
    assert (Hn : nth_error l (S i) = None) by (apply nth_error_None; lia).
    congruence.
Qed.

Lemma nth_error_pred {A : Type} (l : list A) (i : nat) (x : A) :
  nth_error l (S i) = Some x -> exists y, nth_error l i = Some y.
Proof.
  intros Hx. destruct (nth_error l i) as [y|] eqn:Hy; [now exists y|].
  apply nth_error_None in Hy.
  assert (Hn : nth_error l (S i) = None) by (apply nth_error_None; lia).
  congruence.
Qed.


Lemma Qpower2_succ (i : nat) : 2 ^ Z.of_nat (S i) == 2 * 2 ^ Z.of_nat i.
Proof.
  rewrite Nat2Z.inj_succ. unfold Z.succ.
  rewrite Qpower_plus by (intros H; discriminate H).
  change (2 ^ 1) with 2. ring.
Qed.

Lemma Qpower2_pos (i : nat) : 0 < 2 ^ Z.of_nat i.
Proof. apply Qpower_0_lt. reflexivity. Qed.

Lemma Qhalf_double (x : Q) : 2 * (x / 2) == x.
Proof. field. Qed.

Lemma Qabs_zero (x : Q) : Qabs x == 0 -> x == 0.
Proof. apply Qabs_case; intros H H0; lra. Qed.


(** ** The samples of the function plot *)

Lemma linspace_length (start stop : Q) (num : nat) :
  length (linspace start stop num) = num.
Proof.
  destruct num as [|[|n]]; [reflexivity | reflexivity |].
  unfold linspace. rewrite length_app, length_map, length_seq.
  cbn [length]. lia.
Qed.

Lemma linspace_first (start stop : Q) (n : nat) :
  exists x0,
    nth_error (linspace start stop (S (S n))) 0 = Some x0 /\ x0 == start.
Proof.
  unfold linspace. cbn [seq map app nth_error].
  eexists. split; [reflexivity|]. cbn [Z.of_nat]. ring.
Qed.

Lemma linspace_last (start stop : Q) (n : nat) :
  nth_error (linspace start stop (S (S n))) (S n) = Some stop.
Proof.
  unfold linspace.
  rewrite nth_error_app2 by (rewrite length_map, length_seq; lia).
  rewrite length_map, length_seq, Nat.sub_diag. reflexivity.
Qed.

Lemma linspace_bounds (start stop : Q) (num : nat) (x : Q) :
  start <= stop ->
  In x (linspace start stop num) -> start <= x /\ x <= stop.
Proof.
  intros Hle. destruct num as [|[|n]]; [intros [] | |].
  - intros [<- | []]. split; [apply Qle_refl | exact Hle].
  - unfold linspace. intros Hx. apply in_app_or in Hx.
    destruct Hx as [Hx | [<- | []]]; [| split; [exact Hle | apply Qle_refl]].
    apply in_map_iff in Hx. destruct Hx as (k & <- & Hk).
    apply in_seq in Hk.
    set (D := inject_Z (Z.of_nat (S n))).
    set (K := inject_Z (Z.of_nat k)).
    assert (HD : 0 < D).
    { unfold D. rewrite <- (Zlt_Qlt 0). lia. }
    assert (HK0 : 0 <= K).
    { unfold K. rewrite <- (Zle_Qle 0). lia. }
    assert (HKD : K <= D).
    { unfold K, D. rewrite <- Zle_Qle. lia. }
    set (step := (stop - start) / D).
    assert (Hstep : 0 <= step).
    { unfold step. apply Qle_shift_div_l; [exact HD | lra]. }
    assert (HDs : D * step == stop - start).
    { unfold step. field. intros H0. rewrite H0 in HD. discriminate HD. }
    assert (H1 : 0 <= K * step) by now apply Qmult_le_0_compat.
    assert (H2 : K * step <= D * step) by now apply Qmult_le_compat_r.
    split; lra.
Qed.

Section Bracketing.

Variable f : Q -> Q.

(** ** The geometry of the records *)

(** The record at index [i] holds its values of [f] and a bracket whose
    signed width is the initial one divided by [2 ^ i]. *)
Lemma records_geometry (a b tolerance : Q) (max_iterations : Z) :
  forall i d,
    nth_error (records (bisection_method f a b tolerance max_iterations)) i
      = Some d ->
    well_formed f d /\ it_b d - it_a d == (b - a) / 2 ^ Z.of_nat i.
Proof.
  destruct (records_chain f a b tolerance max_iterations) as [Hch Hhd].
  apply (chain_indexed (follows f tolerance)
           (fun i d => well_formed f d
                       /\ it_b d - it_a d == (b - a) / 2 ^ Z.of_nat i));
    [| | exact Hch].
  - intros d Hd. destruct (Hhd d Hd) as [-> _].
    split; [repeat split|]. cbn [first_record it_a it_b].
    change (2 ^ Z.of_nat 0) with 1. field.
  - intros i d1 d2 (_ & -> & _) ((Hc & _) & Hw).
    split; [apply next_record_well_formed|].
    rewrite Qpower2_succ. pose proof (Qpower2_pos i) as Hp.
    set (p := 2 ^ Z.of_nat i) in *.
    assert (Hp0 : ~ p == 0) by (intros H0; rewrite H0 in Hp; discriminate Hp).
    assert (Hhalf : (it_b d1 - it_a d1) / 2 == (b - a) / (2 * p))
      by (rewrite Hw; now field).
    rewrite <- Hhalf.
    unfold next_record, update_interval.
    destruct (Qlt_bool _ 0); cbn [it_a it_b]; rewrite Hc; field.
Qed.

(** The midpoint of the next record is a quarter of the bracket away from
    the midpoint of the record before it. *)
Lemma next_record_midpoint (d : iter_data) :
  well_formed f d ->
  Qabs (it_c (next_record f d) - it_c d) == Qabs (it_b d - it_a d) / 4.
Proof.
  intros (Hc & _). unfold next_record, update_interval.
  destruct (Qlt_bool _ 0); cbn [it_c]; rewrite Hc.
  - assert (H : (it_a d + (it_a d + it_b d) / 2) / 2 - (it_a d + it_b d) / 2
                == - ((it_b d - it_a d) / 4)) by field.
    rewrite H, Qabs_opp, Qabs_Qdiv. reflexivity.
  - assert (H : ((it_a d + it_b d) / 2 + it_b d) / 2 - (it_a d + it_b d) / 2
                == (it_b d - it_a d) / 4) by field.
    rewrite H, Qabs_Qdiv. reflexivity.
Qed.

(** With [a < b], every record's bracket is ordered and lies inside the
    initial one. *)
Lemma records_ordered (a b tolerance : Q) (max_iterations : Z) :
  a < b ->
  Forall (fun d => well_formed f d
                   /\ a <= it_a d /\ it_a d < it_b d /\ it_b d <= b)
    (records (bisection_method f a b tolerance max_iterations)).
Proof.
  intros Hab.
  destruct (records_chain f a b tolerance max_iterations) as [Hch Hhd].
  apply (chain_Forall (follows f tolerance)); [| | exact Hch].
  - intros d Hd. destruct (Hhd d Hd) as [-> _].
    split; [repeat split|]. cbn [first_record it_a it_b]. repeat split; lra.
  - intros d1 d2 (_ & -> & _) ((Hc & _) & H1 & H2 & H3).
    split; [apply next_record_well_formed|].
    unfold next_record, update_interval.
    pose proof (Qhalf_double (it_a d1 + it_b d1)) as Hm.
    destruct (Qlt_bool _ 0); cbn [it_a it_b]; rewrite Hc;
      set (m := (it_a d1 + it_b d1) / 2) in *; repeat split; lra.
Qed.

(** The step behind [records_ordered], for the record that would follow
    [d] as well when the run stops before it. *)
Lemma next_record_ordered (a b : Q) (d : iter_data) :
  well_formed f d ->
  a <= it_a d /\ it_a d < it_b d /\ it_b d <= b ->
  let d' := next_record f d in
  a <= it_a d' /\ it_a d' < it_b d' /\ it_b d' <= b
  /\ it_a d' < it_c d' /\ it_c d' < it_b d'.
Proof.
  intros (Hc & _) (H1 & H2 & H3).
  pose proof (Qhalf_double (it_a d + it_b d)) as Hm.
  unfold next_record, update_interval.
  destruct (Qlt_bool _ 0); cbn [it_a it_b it_c]; rewrite Hc;
    set (m := (it_a d + it_b d) / 2) in *.
  - pose proof (Qhalf_double (it_a d + m)) as Hm'.
    set (m' := (it_a d + m) / 2) in *. repeat split; lra.
  - pose proof (Qhalf_double (m + it_b d)) as Hm'.
    set (m' := (m + it_b d) / 2) in *. repeat split; lra.
Qed.

(** With a positive tolerance the sign of [f] at each end of the bracket
    never changes. *)
Lemma records_signs (a b tolerance : Q) (max_iterations : Z) :
  0 < tolerance ->
  Forall (fun d => well_formed f d
                   /\ (f a < 0 -> f (it_a d) < 0 /\ 0 < f (it_b d))
                   /\ (0 < f a -> 0 < f (it_a d) /\ f (it_b d) < 0))
    (records (bisection_method f a b tolerance max_iterations)).
Proof.
  intros Htol.
  destruct (records_chain f a b tolerance max_iterations) as [Hch Hhd].
  apply (chain_Forall (follows f tolerance)); [| | exact Hch].
  - intros d Hd. destruct (Hhd d Hd) as [-> Hab].
    split; [repeat split|]. cbn [first_record it_a it_b].
    split; intros Ha; (split; [exact Ha | nra]).
  - intros d1 d2 (Hnc & -> & _) ((Hc & Hfa & Hfb & Hfc) & Hneg & Hpos).
    split; [apply next_record_well_formed|].
    apply converged_false_iff in Hnc. destruct Hnc as [Hnc _].
    assert (Hfc0 : it_fc d1 < 0 \/ 0 < it_fc d1).
    { destruct (Qlt_le_dec (it_fc d1) 0) as [H | H]; [now left|].
      destruct (Qle_lt_or_eq _ _ H) as [H' | H']; [now right|].
      exfalso. rewrite <- H' in Hnc. simpl in Hnc.
      apply (Qlt_not_le _ _ Htol Hnc). }
    unfold next_record, update_interval.
    destruct (Qlt_bool (it_fa d1 * it_fc d1) 0) eqn:Hlt; cbn [it_a it_b].
    + apply Qlt_bool_iff in Hlt. rewrite Hfa, Hfc in Hlt.
      rewrite Hfc in Hfc0.
      split; intros Ha.
      * destruct (Hneg Ha) as [Hn _]. split; [exact Hn | nra].
      * destruct (Hpos Ha) as [Hp _]. split; [exact Hp | nra].
    + apply Qlt_bool_false_iff in Hlt. rewrite Hfa, Hfc in Hlt.
      rewrite Hfc in Hfc0.
      split; intros Ha.
      * destruct (Hneg Ha) as [Hn Hb]. split; [nra | exact Hb].
      * destruct (Hpos Ha) as [Hp Hb]. split; [nra | exact Hb].
Qed.

(** ** The recorded errors *)

(** Every recorded relative error is non-negative. *)
Lemma records_errors_nonneg (a b tolerance : Q) (max_iterations : Z) :
  Forall (fun d => 0 <= it_error d)
    (records (bisection_method f a b tolerance max_iterations)).
Proof.
  destruct (records_chain f a b tolerance max_iterations) as [Hch Hhd].
  apply (chain_Forall (follows f tolerance)); [| | exact Hch].
  - intros d Hd. destruct (Hhd d Hd) as [-> _]. discriminate.
  - intros d1 d2 (_ & -> & _) _. unfold next_record.
    destruct (update_interval _ _ _ _ _) as [a' b']. cbn [it_error].
    apply Qmult_le_0_compat; [apply Qabs_nonneg | discriminate].
Qed.

Lemma next_record_error (d : iter_data) :
  it_error (next_record f d)
    = Qabs ((it_c (next_record f d) - it_c d) / it_c (next_record f d)) * 100.
Proof. unfold next_record. now destruct (update_interval _ _ _ _ _). Qed.

(** The relative error of the record at index [i + 1], in terms of the
    initial bracket. *)
Lemma records_error_at (a b tolerance : Q) (max_iterations : Z) :
  forall i d,
    nth_error (records (bisection_method f a b tolerance max_iterations))
      (S i) = Some d ->
    it_error d
      == Qabs (b - a) / 2 ^ Z.of_nat (S (S i)) / Qabs (it_c d) * 100.
Proof.
  intros i d2 H2.
  destruct (nth_error_pred _ _ _ H2) as [d1 H1].
  destruct (records_chain f a b tolerance max_iterations) as [Hch _].
  destruct (chain_nth _ _ Hch i d1 d2 H1 H2) as (_ & -> & Hc2).
  destruct (records_geometry a b tolerance max_iterations i d1 H1)
    as [Hwf Hw].
  rewrite next_record_error, Qabs_Qdiv, (next_record_midpoint d1 Hwf), Hw.
  rewrite Qabs_Qdiv, !Qpower2_succ.
  pose proof (Qpower2_pos i) as Hp. set (p := 2 ^ Z.of_nat i) in *.
  rewrite (Qabs_pos p) by lra.
  field. split.
  - intros H0. rewrite H0 in Hp. discriminate Hp.
  - intros H0. apply Hc2. now apply Qabs_zero.
Qed.




(** On a bracket to the right of zero, the relative error is below the
    tolerance from the pass at which [2 ^ N * a * tolerance] reaches
    [100 * (b - a)]. *)
Lemma late_error_small (a b tolerance : Q) (max_iterations : Z) :
  0 < a -> a < b -> 0 < tolerance ->
  forall i d,
    nth_error (records (bisection_method f a b tolerance max_iterations))
      (S i) = Some d ->
    100 * (b - a) <= 2 ^ Z.of_nat (S (S i)) * a * tolerance ->
    it_error d < tolerance.
Proof.
  intros Ha Hab Htol i d Hd Hbound.
  rewrite (records_error_at a b tolerance max_iterations i d Hd).
  pose proof (records_ordered a b tolerance max_iterations Hab) as Hord.
  rewrite Forall_forall in Hord.
  destruct (Hord d (nth_error_In _ _ Hd)) as ((Hc & _) & H1 & H2 & H3).
  pose proof (Qhalf_double (it_a d + it_b d)) as Hm. rewrite <- Hc in Hm.
  pose proof (Qpower2_pos (S (S i))) as Hp.
  set (p := 2 ^ Z.of_nat (S (S i))) in *.
  rewrite (Qabs_pos (b - a)) by lra. rewrite (Qabs_pos (it_c d)) by lra.
  assert (Hca : a < it_c d) by lra.
  assert (Hq : 0 < p * tolerance) by now apply Qmult_lt_0_compat.
  assert (Hpc : 0 < p * it_c d) by (apply Qmult_lt_0_compat; lra).
  assert (E : (b - a) / p / it_c d * 100 == (100 * (b - a)) / (p * it_c d))
    by (field; split; lra).
  rewrite E. apply Qlt_shift_div_r; [exact Hpc|].
  apply Qle_lt_trans with (p * a * tolerance); [exact Hbound|].
  assert (Hlt : (p * tolerance) * a < (p * tolerance) * it_c d)
    by (apply Qmult_lt_l; assumption).
  lra.
Qed.


(** ** The outcome of a call *)

(** The three shapes of a call. *)
Lemma bisection_method_cases (a b tolerance : Q) (max_iterations : Z) :
  let run := bisection_method f a b tolerance max_iterations in
  (0 <= f a * f b /\ run = ([PrintBracketError], Return NoneNone))
  \/ (f a * f b < 0 /\ (max_iterations <= 0)%Z
      /\ run = ([PrintHeader], Raise UnboundLocalError))
  \/ (f a * f b < 0 /\ (0 < max_iterations)%Z
      /\ exists (ds' : list iter_data) (e : ending),
           run = (PrintHeader
                    :: fst (final e (first_record f a b :: ds')
                              (first_record f a b :: ds')
                              (last ds' (first_record f a b))),
                  snd (final e (first_record f a b :: ds')
                         (first_record f a b :: ds')
                         (last ds' (first_record f a b))))
           /\ records run = first_record f a b :: ds'
           /\ how_ended run = Some e
           /\ In (last ds' (first_record f a b)) (records run)
           /\ nth_error (records run) (length ds')
                = Some (last ds' (first_record f a b))
           /\ ending_of f tolerance e (last ds' (first_record f a b))
           /\ (Z.of_nat (length (records run)) <= max_iterations)%Z
           /\ (e = Exhausted ->
               Z.of_nat (length (records run)) = max_iterations)).
Proof.
  intros run. unfold run.
  destruct (Qlt_le_dec (f a * f b) 0) as [Hab | Hab];
    [| left; split; [exact Hab | now apply bisection_method_invalid]].
  right.
  destruct (Z_lt_le_dec 0 max_iterations) as [Hmax | Hmax];
    [| left; split; [exact Hab|]; split; [exact Hmax|];
       now apply bisection_method_no_pass].
  right. split; [exact Hab|]. split; [exact Hmax|].
  destruct (bisection_method_run f a b tolerance max_iterations Hab Hmax)
    as (ds' & e & Hrun & _ & He & Hlen & Hex).
  cbv zeta in Hrun, He, Hlen, Hex.
  exists ds', e. rewrite Hrun, records_final, how_ended_final.
  repeat split; auto.
  - apply last_in.
  - apply nth_error_last.
Qed.

(** X1.  A call returns [(None, None)] exactly when the bracket check of
    line 27 fails: on a valid bracket the result is never the pair of
    [None]s. *)
Theorem none_iff_invalid_bracket (a b tolerance : Q) (max_iterations : Z) :
  let run := bisection_method f a b tolerance max_iterations in
  (result run = Return NoneNone <-> 0 <= f a * f b)
  /\ (In PrintBracketError (stdout run) <-> 0 <= f a * f b).
Proof.
  intros run.
  destruct (bisection_method_cases a b tolerance max_iterations)
    as [(Hab & Hrun) | [(Hab & Hmax & Hrun)
        | (Hab & Hmax & ds' & e & Hrun & _)]];
    fold run in Hrun; rewrite Hrun; unfold result, stdout; cbn [fst snd].
  - split; (split; [auto | intros _]); [reflexivity | now left].
  - split; (split; intros H; exfalso);
      try (apply (Qlt_not_le _ _ Hab H)); [discriminate|].
    destruct H as [H | []]. discriminate.
  - split; (split; intros H; exfalso);
      try (apply (Qlt_not_le _ _ Hab H)).
    + destruct e; discriminate.
    + destruct H as [H | H]; [discriminate|].
      assert (Hrow : forall ds x, In x (map PrintRow ds) ->
                                  x <> PrintBracketError).
      { intros ds x Hx. apply in_map_iff in Hx.
        destruct Hx as (d & <- & _). discriminate. }
      destruct e; cbn [final fst] in H;
        try (apply in_app_or in H; destruct H as [H | [H | []]];
             [| discriminate]);
        now apply (Hrow _ _ H).
Qed.

(** X2.  A call raises [UnboundLocalError] exactly when the bracket is valid
    and [max_iterations] is not positive: the loop is skipped and line 83
    reads [c], which only the loop body assigns. *)
Theorem unbound_local_iff (a b tolerance : Q) (max_iterations : Z) :
  result (bisection_method f a b tolerance max_iterations)
    = Raise UnboundLocalError
  <-> f a * f b < 0 /\ (max_iterations <= 0)%Z.
Proof.
  destruct (bisection_method_cases a b tolerance max_iterations)
    as [(Hab & Hrun) | [(Hab & Hmax & Hrun) | (Hab & Hmax & ds' & e & Hrun & _)]];
    rewrite Hrun; unfold result; cbn [snd].
  - split; [discriminate|]. intros (H & _). exfalso.
    apply (Qlt_not_le _ _ H Hab).
  - split; auto.
  - split; [destruct e; discriminate | lia].
Qed.

(** X3.  Every call comes to an end within the passes that [max_iterations]
    allows, and the look-up [iterations[-1]] of line 48 never raises
    [IndexError]: it is only reached on a pass after the first, when the
    list holds the record of the pass before. *)
Theorem no_index_error (a b tolerance : Q) (max_iterations : Z) :
  let run := bisection_method f a b tolerance max_iterations in
  result run <> Raise IndexError /\ result run <> OutOfFuel.
Proof.
  intros run.
  destruct (bisection_method_outcomes f a b tolerance max_iterations)
    as [H | [H | [H | [c H]]]]; fold run in H; rewrite H;
    split; discriminate.
Qed.

(** X4.  With [a < b] and zero not strictly inside the bracket
    ([0 <= a] or [b <= 0]) no midpoint is zero, so the division of line 48
    never raises [ZeroDivisionError]. *)
Theorem no_zero_division (a b tolerance : Q) (max_iterations : Z) :
  a < b ->
  0 <= a \/ b <= 0 ->
  result (bisection_method f a b tolerance max_iterations)
    <> Raise ZeroDivisionError.
Proof.
  intros Hlt H0.
  pose proof (records_ordered a b tolerance max_iterations Hlt) as Hord.
  rewrite Forall_forall in Hord.
  destruct (bisection_method_cases a b tolerance max_iterations)
    as [(Hab & Hrun) | [(Hab & Hmax & Hrun)
        | (Hab & Hmax & ds' & e & Hrun & _ & _ & Hin & _ & He & _)]];
    rewrite Hrun; unfold result; cbn [snd]; try discriminate.
  destruct e; try discriminate. intros _.
  destruct He as (_ & Hz).
  destruct (Hord _ Hin) as (Hwf & Hd).
  pose proof (next_record_ordered a b _ Hwf Hd) as H. cbv zeta in H.
  destruct H0; lra.
Qed.

(** X5.  With a tolerance that is not positive the convergence test of
    line 69 never holds: [abs(fc)] and the relative error are never below
    zero.  A call on a valid bracket with a positive [max_iterations] then
    runs all its passes, unless a midpoint is zero. *)
Theorem nonpositive_tolerance (a b tolerance : Q) (max_iterations : Z) :
  tolerance <= 0 ->
  let run := bisection_method f a b tolerance max_iterations in
  how_ended run <> Some Converged
  /\ (f a * f b < 0 -> (0 < max_iterations)%Z ->
      how_ended run = Some DividedByZero
      \/ (how_ended run = Some Exhausted
          /\ Z.of_nat (length (records run)) = max_iterations)).
Proof.
  intros Htol run.
  pose proof (records_errors_nonneg a b tolerance max_iterations) as Herr.
  rewrite Forall_forall in Herr.
  assert (Hnc : forall d,
             In d (records run) ->
             converged tolerance (it_fc d) (it_error d) <> true).
  { intros d Hd Hcv. apply converged_iff in Hcv.
    pose proof (Qabs_nonneg (it_fc d)). pose proof (Herr d Hd).
    destruct Hcv; lra. }
  destruct (bisection_method_cases a b tolerance max_iterations)
    as [(Hab & Hrun) | [(Hab & Hmax & Hrun)
        | (Hab & Hmax & ds' & e & Hrun & _ & Hend & Hin & _ & He & _ & Hex)]];
    fold run in Hrun.
  - rewrite Hrun. split; [discriminate|]. intros H. exfalso.
    apply (Qlt_not_le _ _ H Hab).
  - rewrite Hrun. split; [discriminate | lia].
  - fold run in Hend, Hin, Hex. rewrite Hend.
    destruct e.
    + exfalso. apply (Hnc _ Hin). exact He.
    + split; [discriminate|]. intros _ _. right. split; auto.
    + split; [discriminate|]. intros _ _. now left.
Qed.

(** ** The bracket along a run *)



(** A returned root is the midpoint of the last record, inside its bracket. *)
Lemma returned_root_between (a b tolerance : Q) (max_iterations : Z)
    (c : Q) (its : list iter_data) :
  a < b ->
  result (bisection_method f a b tolerance max_iterations)
    = Return (RootIterations c its) ->
  a < c /\ c < b.
Proof.
  intros Hlt.
  pose proof (records_ordered a b tolerance max_iterations Hlt) as Hord.
  rewrite Forall_forall in Hord.
  destruct (bisection_method_cases a b tolerance max_iterations)
    as [(Hab & Hrun) | [(Hab & Hmax & Hrun)
        | (Hab & Hmax & ds' & e & Hrun & _ & _ & Hin & _)]];
    rewrite Hrun; unfold result; cbn [snd]; try discriminate.
  destruct (Hord _ Hin) as ((Hc & _) & H1 & H2 & H3).
  set (dl := last ds' (first_record f a b)) in *.
  pose proof (Qhalf_double (it_a dl + it_b dl)) as Hm. rewrite <- Hc in Hm.
  destruct e; cbn [final snd]; intros H; try discriminate;
    injection H as <- _; split; lra.
Qed.


(** X9.  With a positive tolerance the sign of [f] at each end of the
    bracket never changes: when [f(a) < 0] every record has
    [f(a_i) < 0 < f(b_i)], and when [f(a) > 0] every record has
    [f(b_i) < 0 < f(a_i)]. *)
Theorem end_signs_kept (a b tolerance : Q) (max_iterations : Z) :
  0 < tolerance ->
  forall d,
    In d (records (bisection_method f a b tolerance max_iterations)) ->
    (f a < 0 -> it_fa d < 0 /\ 0 < it_fb d)
    /\ (0 < f a -> 0 < it_fa d /\ it_fb d < 0).
Proof.
  intros Htol d Hd.
  pose proof (records_signs a b tolerance max_iterations Htol) as Hs.
  rewrite Forall_forall in Hs.
  destruct (Hs d Hd) as ((_ & Hfa & Hfb & _) & Hneg & Hpos).
  now rewrite Hfa, Hfb.
Qed.


(** ** The relative error along a run *)



(** X13.  On a bracket [0 < a < b] with a positive tolerance, once
    [2 ^ N * a * tolerance >= 100 * (b - a)] for some [N >= 2], the relative
    error of pass [N] is below the tolerance whatever [f] is: a call never
    makes more than [N] passes, and on a valid bracket with
    [max_iterations >= N] it returns from the convergence test. *)
Theorem converges_within (a b tolerance : Q) (max_iterations : Z) (N : nat) :
  0 < a -> a < b -> 0 < tolerance ->
  (2 <= N)%nat ->
  100 * (b - a) <= 2 ^ Z.of_nat N * a * tolerance ->
  let run := bisection_method f a b tolerance max_iterations in
  (length (records run) <= N)%nat
  /\ (f a * f b < 0 -> (Z.of_nat N <= max_iterations)%Z ->
      how_ended run = Some Converged).
Proof.
  intros Ha Hlt Htol HN Hbound run.
  destruct N as [|[|i]]; try lia.
  assert (Hsmall : forall d,
             nth_error (records run) (S i) = Some d ->
             converged tolerance (it_fc d) (it_error d) = true).
  { intros d Hd. apply converged_iff. right.
    now apply (late_error_small a b tolerance max_iterations Ha Hlt Htol i). }
  assert (Hlen : (length (records run) <= S (S i))%nat).
  { apply Nat.nlt_ge. intros Hgt.
    destruct (nth_error (records run) (S (S i))) as [d2|] eqn:H2;
      [| apply nth_error_None in H2; lia].
    destruct (nth_error_pred _ _ _ H2) as [d1 H1].
    destruct (records_chain f a b tolerance max_iterations) as [Hch _].
    destruct (chain_nth _ _ Hch (S i) d1 d2 H1 H2) as (Hnc & _).
    rewrite (Hsmall d1 H1) in Hnc. discriminate. }
  split; [exact Hlen|]. intros Hab HNmax.
  pose proof (records_ordered a b tolerance max_iterations Hlt) as Hord.
  fold run in Hord. rewrite Forall_forall in Hord.
  destruct (bisection_method_cases a b tolerance max_iterations)
    as [(Hab' & Hrun) | [(_ & Hmax & Hrun)
        | (_ & Hmax & ds' & e & Hrun & Hds & Hend & Hin & Hnth & He & _ & Hex)]].
  - exfalso. apply (Qlt_not_le _ _ Hab Hab').
  - lia.
  - fold run in Hds, Hend, Hin, Hnth, Hex. rewrite Hend.
    destruct e; [reflexivity | |].
    + exfalso. specialize (Hex eq_refl).
      assert (Hl : length ds' = S i).
      { rewrite Hds in Hex, Hlen. cbn [length] in Hex, Hlen. lia. }
      rewrite Hl in Hnth. cbn [ending_of] in He.
      rewrite (Hsmall _ Hnth) in He. discriminate.
    + exfalso. destruct He as (_ & Hz).
      destruct (Hord _ Hin) as (Hwf & Hd).
      pose proof (next_record_ordered a b _ Hwf Hd) as H. cbv zeta in H.
      lra.
Qed.

(** ** The plots of a run *)


(** X15.  When a call with [a < b] returns [root] and the entry point hands
    it to [plot_function], the curve is drawn over 1000 samples that start
    at [a - 1], end at [b + 1] and all lie between the two, each with the
    value of [f] there, and the marker [(root, f(root))] falls strictly
    inside the sampled range. *)
Theorem function_plot_of_run (a b tolerance : Q) (max_iterations : Z)
    (root : Q) (its : list iter_data) :
  a < b ->
  result (bisection_method f a b tolerance max_iterations)
    = Return (RootIterations root its) ->
  exists x x0,
    plot_function f a b (Some root)
      = [PltFigure; PltPlot x (map f x); PltAxhline 0; PltAxvline 0; PltGrid;
         PltPlot [root] [f root];
         PltXlabel; PltYlabel; PltTitle; PltLegend; PltTightLayout; PltShow]
    /\ length x = 1000%nat
    /\ nth_error x 0 = Some x0 /\ x0 == a - 1
    /\ nth_error x 999 = Some (b + 1)
    /\ (forall xk, In xk x -> a - 1 <= xk /\ xk <= b + 1)
    /\ a - 1 < root /\ root < b + 1.
Proof.
  intros Hlt Hres.
  destruct (returned_root_between a b tolerance max_iterations root its
              Hlt Hres) as [H1 H2].
  destruct (linspace_first (a - 1) (b + 1) 998) as (x0 & Hx0 & Hx0eq).
  exists (linspace (a - 1) (b + 1) 1000), x0.
  split; [reflexivity|]. split; [apply linspace_length|].
  split; [exact Hx0|]. split; [exact Hx0eq|].
  split; [exact (linspace_last (a - 1) (b + 1) 998)|].
  split; [| split; lra].
  intros xk. apply linspace_bounds. lra.
Qed.

End Bracketing.

(** ** Instances of the further properties *)

(** The entry point's bracket lies to the right of zero. *)
Lemma no_zero_division_instance :
  2 < 3
  /\ (0 <= 2 \/ 3 <= 0)
  /\ result main_run <> Raise ZeroDivisionError.
Proof.
  assert (H1 : 2 < 3) by reflexivity.
  assert (H2 : 0 <= 2 \/ 3 <= 0) by (left; discriminate).
  split; [exact H1|]. split; [exact H2|].
  exact (no_zero_division f 2 3 default_tolerance default_max_iterations
           H1 H2).
Defined.

(** The entry point's bracket with a zero tolerance and five passes. *)
Lemma nonpositive_tolerance_instance :
  0 <= 0
  /\ how_ended run_tolerance_0 <> Some Converged.
Proof.
  assert (H : 0 <= 0) by discriminate.
  split; [exact H|].
  exact (proj1 (nonpositive_tolerance f 2 3 0 5 H)).
Defined.




(** The entry point's call keeps [f] negative at the low end. *)
Lemma end_signs_kept_instance :
  0 < default_tolerance
  /\ forall d,
       In d (records main_run) ->
       (f 2 < 0 -> it_fa d < 0 /\ 0 < it_fb d)
       /\ (0 < f 2 -> 0 < it_fa d /\ it_fb d < 0).
Proof.
  assert (H : 0 < default_tolerance) by reflexivity.
  split; [exact H|].
  exact (end_signs_kept f 2 3 default_tolerance default_max_iterations H).
Defined.






(** The entry point's call: [2 ^ 19 * 2 * 0.0001 >= 100], so it converges
    within 19 passes. *)
Lemma converges_within_instance :
  0 < 2
  /\ 2 < 3
  /\ 0 < default_tolerance
  /\ (2 <= 19)%nat
  /\ 100 * (3 - 2) <= 2 ^ Z.of_nat 19 * 2 * default_tolerance
  /\ f 2 * f 3 < 0
  /\ (Z.of_nat 19 <= default_max_iterations)%Z
  /\ (length (records main_run) <= 19)%nat
  /\ how_ended main_run = Some Converged.
Proof.
  assert (H0 : 0 < 2) by reflexivity.
  assert (H1 : 2 < 3) by reflexivity.
  assert (H2 : 0 < default_tolerance) by reflexivity.
  assert (H3 : (2 <= 19)%nat) by lia.
  assert (H4 : 100 * (3 - 2) <= 2 ^ Z.of_nat 19 * 2 * default_tolerance)
    by (vm_compute; discriminate).
  assert (H5 : f 2 * f 3 < 0) by reflexivity.
  assert (H6 : (Z.of_nat 19 <= default_max_iterations)%Z)
    by (vm_compute; discriminate).
  split; [exact H0|]. split; [exact H1|]. split; [exact H2|].
  split; [exact H3|]. split; [exact H4|]. split; [exact H5|].
  split; [exact H6|].
  destruct (converges_within f 2 3 default_tolerance default_max_iterations
              19 H0 H1 H2 H3 H4) as [Hlen Hend].
  split; [exact Hlen | exact (Hend H5 H6)].
Defined.


(** The function plot of a call that returns 2.5 from its first pass. *)
Lemma function_plot_of_run_instance :
  2 < 3
  /\ result run_tolerance_10
     = Return (RootIterations (it_c (first_record f 2 3))
                 [first_record f 2 3])
  /\ exists x x0,
       plot_function f 2 3 (Some (it_c (first_record f 2 3)))
         = [PltFigure; PltPlot x (map f x); PltAxhline 0; PltAxvline 0;
            PltGrid;
            PltPlot [it_c (first_record f 2 3)]
              [f (it_c (first_record f 2 3))];
            PltXlabel; PltYlabel; PltTitle; PltLegend; PltTightLayout;
            PltShow]
       /\ length x = 1000%nat
       /\ nth_error x 0 = Some x0 /\ x0 == 2 - 1
       /\ nth_error x 999 = Some (3 + 1)
       /\ (forall xk, In xk x -> 2 - 1 <= xk /\ xk <= 3 + 1)
       /\ 2 - 1 < it_c (first_record f 2 3)
       /\ it_c (first_record f 2 3) < 3 + 1.
Proof.
  assert (H : 2 < 3) by reflexivity.
  assert (Hr : result run_tolerance_10
               = Return (RootIterations (it_c (first_record f 2 3))
                           [first_record f 2 3])) by reflexivity.
  split; [exact H|]. split; [exact Hr|].
  exact (function_plot_of_run f 2 3 10 default_max_iterations _ _ H Hr).
Defined.
